(** * Dixon-Coles Poisson engine (dixon-coles.ts): embedding and properties

    The TypeScript module is a set of pure functions over JavaScript numbers.
    The functions are embedded once, over an interface [JsNumber] of the
    operations the source applies to numbers, and read in two ways:

    - [Exact]: numbers are the reals, [Math.log] is [ln], [Math.exp] is
      [exp].  This is the rounding-free reading of the code.  It says nothing
      about rounding error, overflow, infinities or NaN.
    - [Binary64]: numbers are IEEE 754 binary64 values (Rocq's primitive
      floats), which is what a JavaScript engine computes with.  [Math.log]
      and [Math.exp] are implementation-approximated in ECMAScript, so they
      are taken as arguments; only their special values are fixed by the
      language.

    Goal counts and loop indices are integers ([Z]); a number that is used as
    an integer in the source is converted with [ofZ] where the source uses it
    in arithmetic. *)

From Stdlib Require Import String.
From Stdlib Require Import ZArith List Bool Lia.
From Stdlib Require Import Reals Lra.
From Stdlib Require Import Floats Uint63.
Import ListNotations.

Local Open Scope Z_scope.
#[local] Set Warnings "-inexact-float".

(** ** JavaScript numbers *)

Class JsNumber (N : Type) : Type := {
  add : N -> N -> N;
  sub : N -> N -> N;
  mul : N -> N -> N;
  div : N -> N -> N;
  neg : N -> N;
  (** [ltb x y] is the value of [x < y]; [x > y] is [ltb y x]. *)
  ltb : N -> N -> bool;
  (** ToBoolean on a number: false on zero (and on NaN). *)
  truthy : N -> bool;
  (** An integer used as a number. *)
  ofZ : Z -> N;
  Math_log : N -> N;
  Math_exp : N -> N;
  Math_PI : N
}.

Declare Scope js_scope.
Delimit Scope js_scope with js.
Notation "x + y" := (add x y) : js_scope.
Notation "x - y" := (sub x y) : js_scope.
Notation "x * y" := (mul x y) : js_scope.
Notation "x / y" := (div x y) : js_scope.
Notation "- x" := (neg x) : js_scope.
Notation "x <? y" := (ltb x y) : js_scope.
Notation "x >? y" := (ltb y x) : js_scope.

(** The index sequence of [for (let i = lo; i <= hi; i++)]. *)
Definition upto (lo hi : Z) : list Z :=
  map (fun i => lo + Z.of_nat i) (seq 0 (Z.to_nat (hi - lo + 1))).

(** A parameter with a default value: [None] is an omitted argument. *)
Definition orDefault {A : Type} (d : A) (o : option A) : A :=
  match o with Some a => a | None => d end.

Section Engine.

Context {N : Type} {num : JsNumber N}.

(** The decimal literal [m]e-[e], e.g. [decimal 25 1] for 2.5: the quotient of
    two integers, which a correctly rounded division maps to the same binary64
    value as the literal. *)
Definition decimal (m : Z) (e : nat) : N := (ofZ m / ofZ (10 ^ Z.of_nat e))%js.

(** [m[i][j]]; the source only reads cells it has written. *)
Definition cell (m : list (list N)) (i j : Z) : N :=
  nth (Z.to_nat j) (nth (Z.to_nat i) m []) (ofZ 0).

(** The grid written by the nested loops
    [for (home = 0; home <= maxGoals; home++)
       for (away = 0; away <= maxGoals; away++) matrix[home][away] = f home away]. *)
Definition forCells (maxGoals : Z) (f : Z -> Z -> N) : list (list N) :=
  map (fun home => map (fun away => f home away) (upto 0 maxGoals))
      (upto 0 maxGoals).

(** [xs.reduce((sum, prob) => sum + prob, 0)] *)
Definition reduceSum (xs : list N) : N :=
  fold_left (fun sum prob => sum + prob)%js xs (ofZ 0).

Definition logFactorial (k : Z) : N :=
  if k <=? 1 then ofZ 0
  else if k <? 20 then
    fold_left (fun result i => result + Math_log (ofZ i))%js (upto 2 k) (ofZ 0)
  else
    (ofZ k * Math_log (ofZ k) - ofZ k
     + decimal 5 1 * Math_log (ofZ 2 * Math_PI * ofZ k))%js.

Definition poissonProbability (lambda : N) (k : Z) : N :=
  if k <? 0 then ofZ 0
  else
    let logProb := (ofZ k * Math_log lambda - lambda - logFactorial k)%js in
    Math_exp logProb.

Definition dixonColesTau (homeGoals awayGoals : Z) (rho : N) : N :=
  if (homeGoals =? 0) && (awayGoals =? 0) then (ofZ 1 - rho)%js
  else if (homeGoals =? 0) && (awayGoals =? 1) then (ofZ 1 + rho)%js
  else if (homeGoals =? 1) && (awayGoals =? 0) then (ofZ 1 + rho)%js
  else if (homeGoals =? 1) && (awayGoals =? 1) then (ofZ 1 - rho)%js
  else ofZ 1.

Definition calculateScoreMatrix (lambdaHome lambdaAway : N)
    (maxGoals : option Z) (rho : option N) : list (list N) :=
  let maxGoals := orDefault 10 maxGoals in
  let rho := orDefault (- decimal 13 2)%js rho in
  (* First pass: raw Poisson probabilities *)
  let matrix :=
    forCells maxGoals (fun home away =>
      let probHome := poissonProbability lambdaHome home in
      let probAway := poissonProbability lambdaAway away in
      (probHome * probAway)%js) in
  (* Second pass: Dixon-Coles correction *)
  let matrix :=
    forCells maxGoals (fun home away =>
      let tau := dixonColesTau home away rho in
      (cell matrix home away * tau)%js) in
  (* Normalize *)
  let total := reduceSum (concat matrix) in
  forCells maxGoals (fun home away => (cell matrix home away / total)%js).

Record MatchPrediction : Type := {
  probHome : N;
  probDraw : N;
  probAway : N;
  xgHome : N;
  xgAway : N;
  prob0_0 : N;
  probOver2_5 : N;
  probBTTS : N
}.

(** The accumulators of [predictMatch]'s loop. *)
Record Tally : Type := {
  tHome : N;
  tDraw : N;
  tAway : N;
  tOver2_5 : N;
  tBTTS : N
}.

(** One iteration of the inner loop body, on [prob = matrix[home][away]]. *)
Definition tallyCell (t : Tally) (home away : Z) (prob : N) : Tally :=
  let t :=
    if home >? away then
      {| tHome := (tHome t + prob)%js; tDraw := tDraw t; tAway := tAway t;
         tOver2_5 := tOver2_5 t; tBTTS := tBTTS t |}
    else if home =? away then
      {| tHome := tHome t; tDraw := (tDraw t + prob)%js; tAway := tAway t;
         tOver2_5 := tOver2_5 t; tBTTS := tBTTS t |}
    else
      {| tHome := tHome t; tDraw := tDraw t; tAway := (tAway t + prob)%js;
         tOver2_5 := tOver2_5 t; tBTTS := tBTTS t |} in
  let t :=
    if (ofZ (home + away) >? decimal 25 1)%js then
      {| tHome := tHome t; tDraw := tDraw t; tAway := tAway t;
         tOver2_5 := (tOver2_5 t + prob)%js; tBTTS := tBTTS t |}
    else t in
  if (home >? 0) && (away >? 0) then
    {| tHome := tHome t; tDraw := tDraw t; tAway := tAway t;
       tOver2_5 := tOver2_5 t; tBTTS := (tBTTS t + prob)%js |}
  else t.

(** The single pass of [predictMatch] over a matrix. *)
Definition tallyMatrix (matrix : list (list N)) : Tally :=
  let maxGoals := Z.of_nat (length matrix) - 1 in
  fold_left (fun t home =>
      fold_left (fun t away => tallyCell t home away (cell matrix home away))
                (upto 0 maxGoals) t)
    (upto 0 maxGoals)
    {| tHome := ofZ 0; tDraw := ofZ 0; tAway := ofZ 0;
       tOver2_5 := ofZ 0; tBTTS := ofZ 0 |}.

Definition predictMatch (lambdaHome lambdaAway : N) : MatchPrediction :=
  let matrix := calculateScoreMatrix lambdaHome lambdaAway None None in
  let t := tallyMatrix matrix in
  {| probHome := tHome t;
     probDraw := tDraw t;
     probAway := tAway t;
     xgHome := lambdaHome;
     xgAway := lambdaAway;
     prob0_0 := cell matrix 0 0;
     probOver2_5 := tOver2_5 t;
     probBTTS := tBTTS t |}.

Definition calculateExpectedGoals (attackStrength defenseStrengthOpp : N)
    (leagueAvg homeAdvantage : option N) : N :=
  let leagueAvg := orDefault (decimal 15 1) leagueAvg in
  let homeAdvantage := orDefault (ofZ 1) homeAdvantage in
  (attackStrength * defenseStrengthOpp * leagueAvg * homeAdvantage)%js.

Record ValueBet : Type := {
  hasValue : bool;
  edge : N;
  fairOdds : N
}.

Definition findValueBet (trueProbability odds : N) (margin : option N)
    : ValueBet :=
  let margin := orDefault (decimal 5 2) margin in
  let impliedProbability := (ofZ 1 / odds)%js in
  let fairOdds := (ofZ 1 / trueProbability)%js in
  let edge := ((trueProbability - impliedProbability) / impliedProbability)%js in
  {| hasValue := (edge >? margin)%js;
     edge := (edge * ofZ 100)%js;
     fairOdds := fairOdds |}.

Record Arbitrage : Type := {
  isArbitrage : bool;
  profitMargin : N
}.

Definition detectArbitrage (odds1 odds2 : N) (odds3 : option N) : Arbitrage :=
  let probs := [(ofZ 1 / odds1)%js; (ofZ 1 / odds2)%js] in
  let probs :=
    match odds3 with
    | Some o3 => if truthy o3 then probs ++ [(ofZ 1 / o3)%js] else probs
    | None => probs
    end in
  let totalImplied := reduceSum probs in
  let profitMargin := ((ofZ 1 / totalImplied - ofZ 1) * ofZ 100)%js in
  {| isArbitrage := (totalImplied <? ofZ 1)%js;
     profitMargin := profitMargin |}.

(** ** Vocabulary of the statements *)

(** The cells of the grid in the order the nested loops visit them; it does
    not depend on the number model. *)
Definition cellsOf (n : Z) : list (Z * Z) :=
  flat_map (fun home => map (pair home) (upto 0 n)) (upto 0 n).

(** The value of a cell before normalization: the product of the two Poisson
    probabilities times the correction factor. *)
Definition weight (lambdaHome lambdaAway rho : N) (home away : Z) : N :=
  (poissonProbability lambdaHome home * poissonProbability lambdaAway away
   * dixonColesTau home away rho)%js.


End Engine.

Arguments MatchPrediction N : clear implicits.
Arguments Tally N : clear implicits.
Arguments ValueBet N : clear implicits.
Arguments Arbitrage N : clear implicits.

(** ** The two number models *)

(** Exact arithmetic: the numbers are the reals.  [ln] is only meaningful on
    positive arguments and [/] on non-zero divisors; the statements below stay
    inside that domain wherever the value matters. *)
Definition Exact : JsNumber R := {|
  add := Rplus;
  sub := Rminus;
  mul := Rmult;
  div := Rdiv;
  neg := Ropp;
  ltb := fun x y => if Rlt_dec x y then true else false;
  truthy := fun x => if Req_dec_T x 0 then false else true;
  ofZ := IZR;
  Math_log := ln;
  Math_exp := exp;
  Math_PI := PI
|}.

(** Exposes the real operations behind the interface. *)
Ltac exact_arith :=
  cbn [add sub mul div neg ofZ ltb truthy Math_log Math_exp Math_PI Exact] in *.

(** The sum of a list of reals, as mathematics writes it. *)
Definition Rsum (xs : list R) : R := fold_right Rplus 0%R xs.

(** An integer as a binary64 value (exact up to 2^53 in magnitude). *)
Definition floatOfZ (z : Z) : float :=
  match z with
  | Z0 => PrimFloat.zero
  | Zpos _ => PrimFloat.of_uint63 (Uint63.of_Z z)
  | Zneg p => PrimFloat.opp (PrimFloat.of_uint63 (Uint63.of_Z (Zpos p)))
  end.

(** IEEE 754 binary64 arithmetic, round to nearest even, with the engine's
    [Math.log] and [Math.exp] as arguments. *)
Definition Binary64 (log exp : float -> float) : JsNumber float := {|
  add := PrimFloat.add;
  sub := PrimFloat.sub;
  mul := PrimFloat.mul;
  div := PrimFloat.div;
  neg := PrimFloat.opp;
  ltb := PrimFloat.ltb;
  truthy := fun x => negb (PrimFloat.eqb x PrimFloat.zero || PrimFloat.is_nan x);
  ofZ := floatOfZ;
  Math_log := log;
  Math_exp := exp;
  Math_PI := 0x1.921fb54442d18p+1%float
|}.

(** What ECMAScript fixes of [Math.log] and [Math.exp] at the special values
    the engine can reach (ECMA-262, sections Math.log and Math.exp). *)
Record EcmaSpecialValues (log exp : float -> float) : Prop := {
  log_nan : log PrimFloat.nan = PrimFloat.nan;
  log_zero : log PrimFloat.zero = PrimFloat.neg_infinity;
  log_one : log PrimFloat.one = PrimFloat.zero;
  log_infinity : log PrimFloat.infinity = PrimFloat.infinity;
  exp_nan : exp PrimFloat.nan = PrimFloat.nan;
  exp_zero : exp PrimFloat.zero = PrimFloat.one;
  exp_infinity : exp PrimFloat.infinity = PrimFloat.infinity;
  exp_neg_infinity : exp PrimFloat.neg_infinity = PrimFloat.zero
}.

(** Executable stand-ins for the two library functions: the special values of
    ECMAScript, and a series elsewhere.  They make the binary64 model runnable
    on concrete inputs; no accuracy is claimed for them. *)
Definition expStandIn (x : float) : float :=
  if PrimFloat.is_nan x then PrimFloat.nan
  else if PrimFloat.eqb x PrimFloat.infinity then PrimFloat.infinity
  else if PrimFloat.eqb x PrimFloat.neg_infinity then PrimFloat.zero
  else if PrimFloat.ltb x (-746)%float then PrimFloat.zero
  else if PrimFloat.ltb 710%float x then PrimFloat.infinity
  else
    (* exp x = (exp (x / 1024)) ^ 1024, the inner one by its Taylor series *)
    let y := PrimFloat.div x 1024%float in
    let taylor :=
      fold_right
        (fun k acc =>
           PrimFloat.add 1
             (PrimFloat.mul (PrimFloat.div y (floatOfZ (Z.of_nat k))) acc))
        1%float (seq 1 18) in
    fold_left (fun acc _ => PrimFloat.mul acc acc) (seq 0 10) taylor.

Definition logStandIn (x : float) : float :=
  if PrimFloat.is_nan x then PrimFloat.nan
  else if PrimFloat.ltb x 0 then PrimFloat.nan
  else if PrimFloat.eqb x 0 then PrimFloat.neg_infinity
  else if PrimFloat.eqb x PrimFloat.infinity then PrimFloat.infinity
  else if PrimFloat.eqb x 1 then PrimFloat.zero
  else
    (* x = m * 2^e with m in [1/2, 1): ln x = 2 atanh ((m-1)/(m+1)) + e ln 2 *)
    let (m, e) := PrimFloat.frshiftexp x in
    let z := PrimFloat.div (PrimFloat.sub m 1) (PrimFloat.add m 1) in
    let z2 := PrimFloat.mul z z in
    let atanh :=
      PrimFloat.mul z
        (fold_right
           (fun i acc =>
              PrimFloat.add (PrimFloat.div 1 (floatOfZ (2 * Z.of_nat i + 1)))
                (PrimFloat.mul z2 acc))
           0%float (seq 0 17)) in
    let exponent := PrimFloat.sub (PrimFloat.of_uint63 e) 2101 in
    PrimFloat.add (PrimFloat.mul 2 atanh)
      (PrimFloat.mul exponent 0x1.62e42fefa39efp-1%float).

(** ** The prediction job (generatePredictions, the script that imports
    [predictMatch] and [calculateExpectedGoals] from dixon-coles)

    The job reads the [matches], [predictions] and [teams] tables, and
    inserts one row into [predictions] for every match it can predict.  The
    tables are lists of rows, with the columns the job reads or writes; the
    queries are assumed to succeed, and the console output is left out.
    [parseFloat] and [Number.prototype.toFixed] belong to the runtime and are
    arguments. *)

Record MatchRow : Type := {
  matchId : Z;
  homeTeamId : option Z;
  awayTeamId : option Z
}.

Record TeamRow : Type := {
  teamId : Z;
  attackStrength : option string;
  defenseStrength : option string
}.

(** A row of [predictions]: the match it refers to (a nullable column) and
    the five values the job stores, as the strings [toFixed] returns. *)
Record PredictionRow : Type := {
  pred_matchId : option Z;
  pred_probHome : string;
  pred_probDraw : string;
  pred_probAway : string;
  pred_xgHome : string;
  pred_xgAway : string
}.

(** [!id] is false for a team id that is neither null nor 0. *)
Definition truthyId (id : option Z) : bool :=
  match id with
  | Some i => negb (i =? 0)
  | None => false
  end.

(** [s || d] on a nullable string: [d] for null and for the empty string. *)
Definition orString (s : option string) (d : string) : string :=
  match s with
  | Some x => if String.eqb x EmptyString then d else x
  | None => d
  end.

(** [db.select().from(teams).where(eq(teams.teamId, id)).limit(1)] *)
Definition selectTeam (teams : list TeamRow) (id : Z) : list TeamRow :=
  firstn 1 (filter (fun t => teamId t =? id) teams).

(** [predictedMatchIds.has(id)] for the set built from a column of ids. *)
Definition hasId (ids : list (option Z)) (id : Z) : bool :=
  existsb (fun o => match o with Some i => i =? id | None => false end) ids.

Section PredictionJob.

Context {N : Type} {num : JsNumber N}.
Variable parseFloat : string -> N.
Variable toFixed : N -> nat -> string.

(** The prediction computed in one iteration, from the two team rows. *)
Definition fixturePrediction (homeTeam awayTeam : TeamRow) : MatchPrediction N :=
  let homeAttack := parseFloat (orString (attackStrength homeTeam) "1.0") in
  let homeDefense := parseFloat (orString (defenseStrength homeTeam) "1.0") in
  let awayAttack := parseFloat (orString (attackStrength awayTeam) "1.0") in
  let awayDefense := parseFloat (orString (defenseStrength awayTeam) "1.0") in
  let leagueAvg := decimal 15 1 in
  let homeAdvantage := decimal 115 2 in
  let xgHome :=
    calculateExpectedGoals homeAttack awayDefense (Some leagueAvg)
      (Some homeAdvantage) in
  let xgAway :=
    calculateExpectedGoals awayAttack homeDefense (Some leagueAvg)
      (Some (decimal 10 1)) in
  predictMatch xgHome xgAway.

(** One iteration of the loop: the row it inserts, or [None] when it
    reaches a [continue]. *)
Definition predictionFor (teams : list TeamRow) (m : MatchRow)
    : option PredictionRow :=
  if negb (truthyId (homeTeamId m)) || negb (truthyId (awayTeamId m)) then None
  else
    match homeTeamId m, awayTeamId m with
    | Some homeId, Some awayId =>
        let homeTeam := selectTeam teams homeId in
        let awayTeam := selectTeam teams awayId in
        match nth_error homeTeam 0, nth_error awayTeam 0 with
        | Some home, Some away =>
            let prediction := fixturePrediction home away in
            Some {| pred_matchId := Some (matchId m);
                    pred_probHome := toFixed (probHome prediction) 4;
                    pred_probDraw := toFixed (probDraw prediction) 4;
                    pred_probAway := toFixed (probAway prediction) 4;
                    pred_xgHome := toFixed (xgHome prediction) 2;
                    pred_xgAway := toFixed (xgAway prediction) 2 |}
        | _, _ => None
        end
    | _, _ => None
    end.

(** The job: the [predictions] table after the run, given the three tables
    before it.  Inserted rows are appended. *)
Definition generatePredictions (allMatches : list MatchRow)
    (teams : list TeamRow) (existingPredictions : list PredictionRow)
    : list PredictionRow :=
  let predictedMatchIds := map pred_matchId existingPredictions in
  let matchesToPredict :=
    filter (fun m => negb (hasId predictedMatchIds (matchId m))) allMatches in
  fold_left
    (fun predictions m =>
       match predictionFor teams m with
       | Some row => predictions ++ [row]
       | None => predictions
       end)
    matchesToPredict existingPredictions.

End PredictionJob.

(** *** Vocabulary for the job's properties *)

(** A team reference the job can resolve: not null, not 0, and the id of a
    row of [teams]. *)
Definition hasTeam (teams : list TeamRow) (id : option Z) : bool :=
  match id with
  | Some i => negb (i =? 0) && existsb (fun t => teamId t =? i) teams
  | None => false
  end.

Section InsertedRows.

Context {N : Type} {num : JsNumber N}.
Variable parseFloat : string -> N.
Variable toFixed : N -> nat -> string.

(** The rows a run inserts for a list of matches, in order. *)
Fixpoint insertedRows (teams : list TeamRow) (ms : list MatchRow)
    : list PredictionRow :=
  match ms with
  | [] => []
  | m :: ms =>
      match predictionFor parseFloat toFixed teams m with
      | Some row => row :: insertedRows teams ms
      | None => insertedRows teams ms
      end
  end.

End InsertedRows.

(** ** Loops over index ranges and grids (any number model) *)

Section Grids.

Context {N : Type} {num : JsNumber N}.

Lemma upto_length (lo hi : Z) : length (upto lo hi) = Z.to_nat (hi - lo + 1).
Proof. unfold upto. now rewrite length_map, length_seq. Qed.

Lemma upto_nth (lo hi : Z) (i : nat) (d : Z) :
  (i < Z.to_nat (hi - lo + 1))%nat -> nth i (upto lo hi) d = lo + Z.of_nat i.
Proof.
  intros Hi. unfold upto.
  rewrite (nth_indep _ d (lo + Z.of_nat 0)) by (now rewrite length_map, length_seq).
  rewrite (map_nth (fun i => lo + Z.of_nat i)), seq_nth by exact Hi.
  reflexivity.
Qed.

Lemma upto_In (lo hi x : Z) : In x (upto lo hi) <-> lo <= x <= hi.
Proof.
  unfold upto. rewrite in_map_iff. split.
  - intros (i & <- & Hi). apply in_seq in Hi. lia.
  - intros Hx. exists (Z.to_nat (x - lo)). split; [lia|]. apply in_seq. lia.
Qed.

Lemma upto_empty (lo hi : Z) : hi < lo -> upto lo hi = [].
Proof.
  intros H. unfold upto. replace (Z.to_nat (hi - lo + 1)) with 0%nat by lia.
  reflexivity.
Qed.

(** The last index of a non-empty range: the loop's final iteration. *)
Lemma upto_snoc (lo hi : Z) : lo <= hi -> upto lo hi = upto lo (hi - 1) ++ [hi].
Proof.
  intros H. unfold upto.
  replace (Z.to_nat (hi - lo + 1)) with (S (Z.to_nat (hi - 1 - lo + 1))) by lia.
  rewrite seq_S, map_app. cbn [map]. f_equal. f_equal. lia.
Qed.

Lemma forCells_length (n : Z) (f : Z -> Z -> N) :
  length (forCells n f) = Z.to_nat (n + 1).
Proof.
  unfold forCells. rewrite length_map, upto_length. f_equal. lia.
Qed.

Lemma forCells_rows (n : Z) (f : Z -> Z -> N) :
  Forall (fun row => length row = Z.to_nat (n + 1)) (forCells n f).
Proof.
  unfold forCells. apply Forall_forall. intros row Hrow.
  apply in_map_iff in Hrow. destruct Hrow as (h & <- & _).
  rewrite length_map, upto_length. f_equal. lia.
Qed.

(** Reading back a cell the loops have written. *)
Lemma cell_forCells (n : Z) (f : Z -> Z -> N) (h a : Z) :
  0 <= h <= n -> 0 <= a <= n -> cell (forCells n f) h a = f h a.
Proof.
  intros Hh Ha. unfold cell, forCells.
  rewrite (nth_indep _ [] ((fun home => map (fun away => f home away) (upto 0 n)) 0))
    by (rewrite length_map, upto_length; lia).
  rewrite (map_nth (fun home => map (fun away => f home away) (upto 0 n))).
  rewrite (nth_indep _ (ofZ 0) ((fun away => f (nth (Z.to_nat h) (upto 0 n) 0) away) 0))
    by (rewrite length_map, upto_length; lia).
  rewrite (map_nth (fun away => f (nth (Z.to_nat h) (upto 0 n) 0) away)).
  rewrite !upto_nth by lia. f_equal; lia.
Qed.

Lemma forCells_ext (n : Z) (f g : Z -> Z -> N) :
  (forall h a, 0 <= h <= n -> 0 <= a <= n -> f h a = g h a) ->
  forCells n f = forCells n g.
Proof.
  intros H. unfold forCells. apply map_ext_in. intros h Hh.
  apply map_ext_in. intros a Ha. apply upto_In in Hh, Ha. now apply H.
Qed.

Lemma cellsOf_In (n h a : Z) : In (h, a) (cellsOf n) <-> 0 <= h <= n /\ 0 <= a <= n.
Proof.
  unfold cellsOf. rewrite in_flat_map. split.
  - intros (h' & Hh & Hin). apply in_map_iff in Hin.
    destruct Hin as (a' & [= <- <-] & Ha). apply upto_In in Hh, Ha. tauto.
  - intros [Hh Ha]. exists h. split; [now apply upto_In|].
    apply in_map_iff. exists a. split; [reflexivity|now apply upto_In].
Qed.

Lemma concat_forCells (n : Z) (f : Z -> Z -> N) :
  concat (forCells n f) = map (fun c => f (fst c) (snd c)) (cellsOf n).
Proof.
  unfold forCells, cellsOf.
  assert (G : forall rows cols : list Z,
             concat (map (fun home => map (fun away => f home away) cols) rows)
             = map (fun c => f (fst c) (snd c))
                 (flat_map (fun home => map (pair home) cols) rows)).
  { intros rows cols. induction rows as [|h rows IH]; [reflexivity|].
    cbn [map concat flat_map]. rewrite map_app, map_map, IH. reflexivity. }
  apply G.
Qed.

(** Nested loops over rows and columns are one loop over [cellsOf]. *)
Lemma nested_fold {S : Type} (F : S -> Z -> Z -> S) (rows cols : list Z) (s : S) :
  fold_left (fun s h => fold_left (fun s a => F s h a) cols s) rows s
  = fold_left (fun s c => F s (fst c) (snd c))
      (flat_map (fun h => map (pair h) cols) rows) s.
Proof.
  revert s. induction rows as [|h rows IH]; intros s; [reflexivity|].
  cbn [fold_left flat_map]. rewrite fold_left_app, IH. f_equal.
  clear. revert s. induction cols as [|a cols IH]; intros s; [reflexivity|].
  cbn [map fold_left fst snd]. apply IH.
Qed.

(** The three passes of [calculateScoreMatrix] fused. *)
Lemma calculateScoreMatrix_cells (lambdaHome lambdaAway : N) (n : Z) (rho : N) :
  calculateScoreMatrix lambdaHome lambdaAway (Some n) (Some rho)
  = let w := weight lambdaHome lambdaAway rho in
    let total := reduceSum (map (fun c => w (fst c) (snd c)) (cellsOf n)) in
    forCells n (fun home away => (w home away / total)%js).
Proof.
  unfold calculateScoreMatrix, orDefault. cbv zeta.
  assert (E : forCells n (fun home away =>
                (cell (forCells n (fun home0 away0 =>
                   (poissonProbability lambdaHome home0
                    * poissonProbability lambdaAway away0)%js)) home away
                 * dixonColesTau home away rho)%js)
              = forCells n (weight lambdaHome lambdaAway rho)).
  { apply forCells_ext. intros h a Hh Ha. now rewrite cell_forCells. }
  rewrite E, concat_forCells. apply forCells_ext. intros h a Hh Ha.
  now rewrite cell_forCells.
Qed.

Lemma calculateScoreMatrix_defaults (lambdaHome lambdaAway : N) :
  calculateScoreMatrix lambdaHome lambdaAway None None
  = calculateScoreMatrix lambdaHome lambdaAway (Some 10) (Some (- decimal 13 2)%js).
Proof. reflexivity. Qed.

Lemma calculateScoreMatrix_length (a b : N) (n : option Z) (rho : option N) :
  length (calculateScoreMatrix a b n rho) = Z.to_nat (orDefault 10 n + 1).
Proof. unfold calculateScoreMatrix. cbv zeta. apply forCells_length. Qed.

Lemma tallyMatrix_cells (matrix : list (list N)) :
  tallyMatrix matrix
  = fold_left (fun t c => tallyCell t (fst c) (snd c) (cell matrix (fst c) (snd c)))
      (cellsOf (Z.of_nat (length matrix) - 1))
      {| tHome := ofZ 0; tDraw := ofZ 0; tAway := ofZ 0;
         tOver2_5 := ofZ 0; tBTTS := ofZ 0 |}.
Proof.
  unfold tallyMatrix, cellsOf. cbv zeta.
  apply (nested_fold (fun t h a => tallyCell t h a (cell matrix h a))).
Qed.

Lemma dixonColesTau_sym (h a : Z) (rho : N) :
  dixonColesTau h a rho = dixonColesTau a h rho.
Proof.
  unfold dixonColesTau.
  destruct (Z.eqb_spec h 0), (Z.eqb_spec h 1), (Z.eqb_spec a 0), (Z.eqb_spec a 1);
    subst; try lia; reflexivity.
Qed.


End Grids.

(** ** Sums of reals *)

Section RealSums.

Local Open Scope R_scope.

Lemma Rsum_nil : Rsum [] = 0.
Proof. reflexivity. Qed.

Lemma Rsum_cons (x : R) (xs : list R) : Rsum (x :: xs) = x + Rsum xs.
Proof. reflexivity. Qed.

Lemma fold_left_Rplus (xs : list R) (a : R) :
  fold_left (fun sum prob => sum + prob) xs a = a + Rsum xs.
Proof.
  revert a. induction xs as [|x xs IH]; intros a; cbn [fold_left].
  - rewrite Rsum_nil. lra.
  - rewrite IH, Rsum_cons. lra.
Qed.


Lemma Rsum_map_ext {A : Type} (f g : A -> R) (l : list A) :
  (forall x, In x l -> f x = g x) -> Rsum (map f l) = Rsum (map g l).
Proof. intros H. f_equal. now apply map_ext_in. Qed.











End RealSums.

(** ** The engine in exact arithmetic *)

Section ExactEngine.

#[local] Existing Instance Exact.
Local Open Scope R_scope.

Lemma reduceSum_exact (xs : list R) : reduceSum xs = Rsum xs.
Proof.
  unfold reduceSum. exact_arith. rewrite (fold_left_Rplus xs 0). lra.
Qed.

Lemma poissonProbability_exact (lambda : R) (k : Z) :
  (0 <= k)%Z ->
  poissonProbability lambda k = exp (IZR k * ln lambda - lambda - logFactorial k).
Proof.
  intros Hk. unfold poissonProbability.
  destruct (Z.ltb_spec k 0); [lia|]. reflexivity.
Qed.


Lemma logFactorial_small (k : Z) : (k <= 1)%Z -> logFactorial k = 0.
Proof.
  intros Hk. unfold logFactorial. destruct (Z.leb_spec k 1); [reflexivity|lia].
Qed.


Lemma dixonColesTau_zero (h a : Z) : dixonColesTau h a 0 = 1.
Proof.
  unfold dixonColesTau.
  repeat match goal with |- context [if ?b then _ else _] => destruct b end;
    exact_arith; lra.
Qed.




(** The shape of the result in exact arithmetic. *)
Lemma calculateScoreMatrix_exact (lambdaHome lambdaAway : R) (n : Z) (rho : R) :
  calculateScoreMatrix lambdaHome lambdaAway (Some n) (Some rho)
  = forCells n (fun h a =>
      weight lambdaHome lambdaAway rho h a
      / Rsum (map (fun c => weight lambdaHome lambdaAway rho (fst c) (snd c))
                (cellsOf n))).
Proof.
  rewrite calculateScoreMatrix_cells. cbv zeta. rewrite reduceSum_exact.
  reflexivity.
Qed.



End ExactEngine.

(** ** The aggregation pass in exact arithmetic *)

Section ExactTally.

#[local] Existing Instance Exact.
Local Open Scope R_scope.

(** 2.5 against an integer total: strictly above means at least 3. *)
Lemma over_2_5_exact (total : Z) :
  (ofZ total >? decimal 25 1)%js = (3 <=? total)%Z.
Proof.
  unfold decimal. change (10 ^ Z.of_nat 1)%Z with 10%Z. exact_arith.
  destruct (Rlt_dec (25 / 10) (IZR total)) as [H|H];
    destruct (Z.leb_spec 3 total) as [L|L]; try reflexivity; exfalso.
  - assert (IZR total <= 2) by (apply IZR_le; lia). lra.
  - apply H. assert (3 <= IZR total) by (apply IZR_le; lia). lra.
Qed.




Lemma tallyCell_over (t : Tally R) (h a : Z) (p : R) :
  tOver2_5 (tallyCell t h a p)
  = tOver2_5 t + (if (ofZ (h + a) >? decimal 25 1)%js then p else 0).
Proof.
  unfold tallyCell. cbv zeta.
  destruct (h >? a)%Z, (h =? a)%Z, (ofZ (h + a) >? decimal 25 1)%js,
    ((h >? 0)%Z && (a >? 0)%Z)%bool; cbn [tOver2_5]; exact_arith; lra.
Qed.

(** An accumulator that grows by the cells passing a test ends as the sum of
    those cells. *)
Lemma tally_fold (g : Tally R -> R) (q : Z * Z -> bool) (v : Z * Z -> R) :
  (forall t c, g (tallyCell t (fst c) (snd c) (v c))
               = g t + (if q c then v c else 0)) ->
  forall (l : list (Z * Z)) (t : Tally R),
    g (fold_left (fun t c => tallyCell t (fst c) (snd c) (v c)) l t)
    = g t + Rsum (map v (filter q l)).
Proof.
  intros Hstep l. induction l as [|c l IH]; intros t.
  - cbn [fold_left filter map]. rewrite Rsum_nil. lra.
  - cbn [fold_left]. rewrite IH, Hstep. cbn [filter].
    destruct (q c); cbn [map]; rewrite ?Rsum_cons; lra.
Qed.

(** What [tallyMatrix] leaves in an accumulator, for the default 11 x 11 grid
    and any grid of that size. *)
Lemma tallyMatrix_field (g : Tally R -> R) (q : Z * Z -> bool)
    (matrix : list (list R)) :
  (forall t c p, g (tallyCell t (fst c) (snd c) p)
                 = g t + (if q c then p else 0)) ->
  g {| tHome := 0; tDraw := 0; tAway := 0; tOver2_5 := 0; tBTTS := 0 |} = 0 ->
  g (tallyMatrix matrix)
  = reduceSum (map (fun c => cell matrix (fst c) (snd c))
                 (filter q (cellsOf (Z.of_nat (length matrix) - 1)))).
Proof.
  intros Hstep Hinit. rewrite tallyMatrix_cells, reduceSum_exact.
  rewrite (tally_fold g q (fun c => cell matrix (fst c) (snd c)))
    by (intros t c; apply Hstep).
  exact_arith. rewrite Hinit. lra.
Qed.


Lemma default_matrix_length (lambdaHome lambdaAway : R) :
  (Z.of_nat (length (calculateScoreMatrix lambdaHome lambdaAway None None)) - 1
   = 10)%Z.
Proof. rewrite calculateScoreMatrix_length. reflexivity. Qed.


End ExactTally.

(** ** Properties in exact arithmetic *)

Section ExactProperties.

#[local] Existing Instance Exact.
Local Open Scope R_scope.

Lemma poissonProbability_one (k : Z) :
  (0 <= k <= 1)%Z -> poissonProbability 1 k = exp (-1).
Proof.
  intros Hk. rewrite poissonProbability_exact, logFactorial_small by lia.
  rewrite ln_1. f_equal. lra.
Qed.






(** C6.  [probOver2_5] is the sum of the cells of the default score matrix
    whose total [home + away] is at least 3: the test the loop applies,
    [home + away > 2.5], is strict, and on integer totals it holds exactly
    when the total is at least 3 (a total of 2 is not over, whatever way 2.5
    would round). *)
Theorem predictMatch_over_2_5 (lambdaHome lambdaAway : R) :
  let matrix := calculateScoreMatrix lambdaHome lambdaAway None None in
  probOver2_5 (predictMatch lambdaHome lambdaAway)
  = reduceSum (map (fun c => cell matrix (fst c) (snd c))
                 (filter (fun c => (3 <=? fst c + snd c)%Z) (cellsOf 10)))
  /\ (forall (t : Tally R) (home away : Z) (prob : R),
        tOver2_5 (tallyCell t home away prob)
        = if (ofZ (home + away) >? decimal 25 1)%js
          then (tOver2_5 t + prob)%js else tOver2_5 t)
  /\ (forall home away : Z,
        (ofZ (home + away) >? decimal 25 1)%js = (3 <=? home + away)%Z).
Proof.
  intros matrix. split; [|split].
  - unfold predictMatch. cbv zeta. cbn [probOver2_5]. fold matrix.
    rewrite (tallyMatrix_field tOver2_5 (fun c => (3 <=? fst c + snd c)%Z)).
    + unfold matrix. now rewrite default_matrix_length.
    + intros t c p. rewrite tallyCell_over, over_2_5_exact. reflexivity.
    + reflexivity.
  - intros t home away prob. rewrite tallyCell_over.
    destruct (ofZ (home + away) >? decimal 25 1)%js; exact_arith; lra.
  - intros home away. apply over_2_5_exact.
Qed.



(** C8 (as amended).  With [rho = 0] the correction factor of every cell is
    1, and each cell of the score matrix is the product of the two Poisson
    probabilities divided by the sum of these products over the grid: the
    independent-Poisson grid, renormalized over the truncated range. *)
Theorem zero_rho_normalized_product (lambdaHome lambdaAway : R)
    (maxGoals home away : Z) :
  (0 <= home <= maxGoals)%Z -> (0 <= away <= maxGoals)%Z ->
  (forall h a : Z, dixonColesTau h a 0 = 1)
  /\ cell (calculateScoreMatrix lambdaHome lambdaAway (Some maxGoals) (Some 0))
       home away
     = (poissonProbability lambdaHome home * poissonProbability lambdaAway away
        / reduceSum
            (map (fun c => poissonProbability lambdaHome (fst c)
                           * poissonProbability lambdaAway (snd c))
               (cellsOf maxGoals)))%js.
Proof.
  intros Hh Ha. split; [apply dixonColesTau_zero|].
  rewrite calculateScoreMatrix_exact, cell_forCells, reduceSum_exact by lia.
  assert (W : forall h a, weight lambdaHome lambdaAway 0 h a
                          = poissonProbability lambdaHome h
                            * poissonProbability lambdaAway a).
  { intros h a. unfold weight. rewrite dixonColesTau_zero. exact_arith. lra. }
  rewrite W.
  rewrite (Rsum_map_ext
             (fun c => weight lambdaHome lambdaAway 0 (fst c) (snd c))
             (fun c => poissonProbability lambdaHome (fst c)
                       * poissonProbability lambdaAway (snd c)))
    by (intros c _; apply W).
  reflexivity.
Qed.

Lemma zero_rho_normalized_product_witness :
  cell (calculateScoreMatrix 1 1 (Some 2%Z) (Some 0)) 1 2
  = (poissonProbability 1 1 * poissonProbability 1 2
     / reduceSum (map (fun c => poissonProbability 1 (fst c)
                                * poissonProbability 1 (snd c)) (cellsOf 2)))%js.
Proof.
  apply (zero_rho_normalized_product 1 1 2 1 2); lia.
Defined.

(** C8, the claim as stated fails: the cells are renormalized, so they are
    not the bare products.  On the 1 x 1 grid with both rates 1 the cell
    (0,0) is 1, while the product of the two Poisson probabilities is
    [exp (-1) * exp (-1) < 1]. *)
Lemma zero_rho_not_bare_product :
  cell (calculateScoreMatrix 1 1 (Some 0%Z) (Some 0)) 0 0 = 1
  /\ (poissonProbability 1 0 * poissonProbability 1 0)%js < 1.
Proof.
  pose proof (exp_pos (-1)) as Hpos.
  assert (Hlt : exp (-1) < 1).
  { rewrite <- exp_0. apply exp_increasing. lra. }
  split.
  - rewrite calculateScoreMatrix_exact, cell_forCells by lia.
    change (cellsOf 0) with [(0, 0)]%Z. cbn [map fst snd].
    rewrite Rsum_cons, Rsum_nil.
    unfold weight. rewrite dixonColesTau_zero, !poissonProbability_one by lia.
    exact_arith. field. nra.
  - rewrite !poissonProbability_one by lia. exact_arith. nra.
Qed.

Lemma logSum_upto (m : nat) :
  fold_left (fun result i => result + ln (IZR i)) (upto 2 (Z.of_nat m + 2)) 0
  = sum_f_R0 (fun x => ln (INR (x + 2))) m.
Proof.
  induction m as [|m IH].
  - change (upto 2 (Z.of_nat 0 + 2)) with [2%Z]. cbn [fold_left sum_f_R0].
    change (0 + 2)%nat with 2%nat. rewrite INR_IZR_INZ. cbn [Z.of_nat Pos.of_succ_nat Pos.succ].
    lra.
  - rewrite upto_snoc by lia.
    replace (Z.of_nat (S m) + 2 - 1)%Z with (Z.of_nat m + 2)%Z by lia.
    rewrite fold_left_app, IH. cbn [fold_left sum_f_R0]. f_equal. f_equal.
    rewrite INR_IZR_INZ. f_equal. lia.
Qed.

Lemma ln_fact (n : nat) :
  (2 <= n)%nat -> ln (INR (fact n)) = sum_f 2 n (fun i => ln (INR i)).
Proof.
  intros Hn. induction Hn as [|n Hn IH].
  - unfold sum_f. cbn [Nat.sub sum_f_R0 fact Nat.mul Nat.add]. reflexivity.
  - change (fact (S n)) with (S n * fact n)%nat.
    rewrite mult_INR, ln_mult, IH
      by (apply lt_0_INR; lia) || (apply INR_fact_lt_0).
    unfold sum_f. replace (S n - 2)%nat with (S (n - 2)) by lia.
    cbn [sum_f_R0]. replace (S (n - 2) + 2)%nat with (S n) by lia. lra.
Qed.

(** C9.  [logFactorial k] is 0 for [k <= 1]; for [2 <= k < 20] it is the sum
    of [ln i] for [i] from 2 to [k], which is [ln (k!)]; for [k >= 20] it is
    Stirling's value [k ln k - k + 0.5 ln (2 pi k)]. *)
Theorem logFactorial_branches (k : Z) :
  ((k <= 1)%Z -> logFactorial k = 0)
  /\ ((2 <= k < 20)%Z ->
      logFactorial k = sum_f 2 (Z.to_nat k) (fun i => ln (INR i))
      /\ logFactorial k = ln (INR (fact (Z.to_nat k))))
  /\ ((20 <= k)%Z ->
      logFactorial k = IZR k * ln (IZR k) - IZR k + 0.5 * ln (2 * PI * IZR k)).
Proof.
  split; [apply logFactorial_small|]. split.
  - intros Hk.
    assert (E : logFactorial k = sum_f 2 (Z.to_nat k) (fun i => ln (INR i))).
    { unfold logFactorial.
      destruct (Z.leb_spec k 1); [lia|]. destruct (Z.ltb_spec k 20); [|lia].
      exact_arith.
      replace k with (Z.of_nat (Z.to_nat k - 2) + 2)%Z at 1 by lia.
      rewrite logSum_upto. reflexivity. }
    split; [exact E|]. rewrite E, ln_fact by lia. reflexivity.
  - intros Hk. unfold logFactorial.
    destruct (Z.leb_spec k 1); [lia|]. destruct (Z.ltb_spec k 20); [lia|].
    unfold decimal. change (10 ^ Z.of_nat 1)%Z with 10%Z. exact_arith.
    replace (5 / 10) with 0.5 by lra. reflexivity.
Qed.

Lemma logFactorial_branches_witness :
  logFactorial 0 = 0
  /\ logFactorial 5 = ln (INR (fact 5))
  /\ logFactorial 20 = 20 * ln 20 - 20 + 0.5 * ln (2 * PI * 20).
Proof.
  destruct (logFactorial_branches 0) as [H0 _].
  destruct (logFactorial_branches 5) as (_ & H5 & _).
  destruct (logFactorial_branches 20) as (_ & _ & H20).
  split; [apply H0; lia|]. split; [apply H5; lia|apply H20; lia].
Defined.

End ExactProperties.

(** ** The engine on binary64 numbers *)

Section Binary64Engine.

Variables log exp : float -> float.

Local Open Scope float_scope.

(** The decimal literals of the source and of the examples denote the
    binary64 values a JavaScript engine reads them as. *)
Lemma decimal_literals :
  let lit := decimal (num := Binary64 log exp) in
  lit 21%Z 1%nat = 2.1 /\ lit 19%Z 1%nat = 1.9 /\ lit 22%Z 1%nat = 2.2
  /\ lit 5%Z 1%nat = 0.5 /\ lit 25%Z 1%nat = 2.5 /\ lit 5%Z 2%nat = 0.05
  /\ lit 13%Z 2%nat = 0.13 /\ lit 15%Z 1%nat = 1.5.
Proof. cbv zeta. repeat split; vm_compute; reflexivity. Qed.

(** C5, what the code does at rate 0.  [Math.log(0)] is -Infinity, so for
    [k = 0] the exponent [0 * -Infinity - 0 - 0] is NaN and the result is
    NaN, not 1; for [k = 1] the exponent is -Infinity and the result is 0. *)
Theorem poissonProbability_zero_rate :
  EcmaSpecialValues log exp ->
  let poisson := poissonProbability (num := Binary64 log exp) in
  poisson 0 0%Z = nan
  /\ PrimFloat.eqb (poisson 0 0%Z) 1 = false
  /\ poisson 0 1%Z = 0.
Proof.
  intros H poisson.
  assert (E0 : poisson 0 0%Z = nan).
  { unfold poisson, poissonProbability, logFactorial.
    cbn [Z.ltb Z.leb Z.compare]. cbv zeta. cbn [Math_log Math_exp Binary64].
    replace (log 0) with neg_infinity by (symmetry; apply (log_zero _ _ H)).
    match goal with
    | |- exp ?x = _ => let y := eval vm_compute in x in change x with y
    end.
    apply (exp_nan _ _ H). }
  split; [exact E0|]. split; [rewrite E0; reflexivity|].
  unfold poisson, poissonProbability, logFactorial.
  cbn [Z.ltb Z.leb Z.compare]. cbv zeta. cbn [Math_log Math_exp Binary64].
  replace (log 0) with neg_infinity by (symmetry; apply (log_zero _ _ H)).
  match goal with
  | |- exp ?x = _ => let y := eval vm_compute in x in change x with y
  end.
  apply (exp_neg_infinity _ _ H).
Qed.

End Binary64Engine.

Lemma standIns_special_values : EcmaSpecialValues logStandIn expStandIn.
Proof. constructor; vm_compute; reflexivity. Qed.

Lemma poissonProbability_zero_rate_witness :
  poissonProbability (num := Binary64 logStandIn expStandIn) 0%float 0
  = PrimFloat.nan
  /\ PrimFloat.eqb
       (poissonProbability (num := Binary64 logStandIn expStandIn) 0%float 0)
       1%float = false
  /\ poissonProbability (num := Binary64 logStandIn expStandIn) 0%float 1
     = 0%float.
Proof.
  apply (poissonProbability_zero_rate logStandIn expStandIn).
  constructor; vm_compute; reflexivity.
Defined.

(** A run of the binary64 model with the stand-ins, at the rates of the
    specification's regression case (1.5 and 1.2): the cells of the matrix
    and the three outcome probabilities each add up to 1 within 1e-9, and the
    0-0 cell is close to [exp (-2.7) * 1.13].  This is one execution; the
    general statements are the ones in exact arithmetic above. *)
Example binary64_run :
  let num := Binary64 logStandIn expStandIn in
  let near (x y : float) :=
    (PrimFloat.ltb (PrimFloat.sub y 1e-9) x
     && PrimFloat.ltb x (PrimFloat.add y 1e-9))%bool%float in
  let matrix := calculateScoreMatrix 1.5%float 1.2%float None None in
  let p := predictMatch 1.5%float 1.2%float in
  near (reduceSum (concat matrix)) 1%float = true
  /\ near (probHome p + probDraw p + probAway p)%js 1%float = true
  /\ near (prob0_0 p) 0.075875985%float = true
  /\ xgHome p = 1.5%float /\ xgAway p = 1.2%float.
Proof. cbv zeta. repeat split; vm_compute; reflexivity. Qed.

(** ** Properties that hold in both number models *)





(** C10.  In every number model, [predictMatch] aggregates the matrix
    [calculateScoreMatrix(lambdaHome, lambdaAway, 10, -0.13)]: an 11 x 11
    grid, visited cell by cell over [0..10] x [0..10]; it has no parameter
    for the bound or for rho, and it returns the two rates unchanged as
    [xgHome] and [xgAway].  The default [-0.13] is the real number -13/100 in
    exact arithmetic and the binary64 value -0.13 on floats. *)
Theorem predictMatch_default_matrix :
  (forall (N : Type) (num : JsNumber N) (lambdaHome lambdaAway : N),
      let matrix :=
        calculateScoreMatrix lambdaHome lambdaAway
          (Some 10) (Some (- decimal 13 2)%js) in
      let t :=
        fold_left
          (fun t c => tallyCell t (fst c) (snd c) (cell matrix (fst c) (snd c)))
          (cellsOf 10)
          {| tHome := ofZ 0; tDraw := ofZ 0; tAway := ofZ 0;
             tOver2_5 := ofZ 0; tBTTS := ofZ 0 |} in
      predictMatch lambdaHome lambdaAway
      = {| probHome := tHome t; probDraw := tDraw t; probAway := tAway t;
           xgHome := lambdaHome; xgAway := lambdaAway;
           prob0_0 := cell matrix 0 0;
           probOver2_5 := tOver2_5 t; probBTTS := tBTTS t |}
      /\ length matrix = 11%nat
      /\ Forall (fun row => length row = 11%nat) matrix)
  /\ @neg R Exact (decimal (num := Exact) 13 2) = (-13 / 100)%R
  /\ (forall log exp : float -> float,
      @neg float (Binary64 log exp) (decimal (num := Binary64 log exp) 13 2)
        = (-0.13)%float).
Proof.
  split; [|split].
  - intros N num lambdaHome lambdaAway matrix t. split; [|split].
    + unfold predictMatch. cbv zeta.
      rewrite tallyMatrix_cells, calculateScoreMatrix_length.
      rewrite calculateScoreMatrix_defaults. reflexivity.
    + apply calculateScoreMatrix_length.
    + unfold matrix, calculateScoreMatrix. cbv zeta. cbn [orDefault].
      exact (forCells_rows 10 _).
  - unfold decimal. change (10 ^ Z.of_nat 2) with 100. exact_arith. lra.
  - intros log exp. vm_compute. reflexivity.
Qed.

(** ** More of the engine in exact arithmetic *)

Section ExactPoisson.

#[local] Existing Instance Exact.
Local Open Scope R_scope.










End ExactPoisson.

Section ExactPrediction.

#[local] Existing Instance Exact.
Local Open Scope R_scope.








End ExactPrediction.

Section ExactSymmetry.

#[local] Existing Instance Exact.
Local Open Scope R_scope.







End ExactSymmetry.

Section ExactMarkets.

#[local] Existing Instance Exact.
Local Open Scope R_scope.








End ExactMarkets.

(** ** More of the engine in every number model *)

(** X4.  The grid is always square of side [maxGoals + 1] (10 + 1 when the bound
    is omitted), whatever the rates and the correlation parameter, and it is
    empty for a negative bound. *)
Theorem calculateScoreMatrix_shape :
  forall (N : Type) (num : JsNumber N) (lambdaHome lambdaAway : N)
         (maxGoals : option Z) (rho : option N),
    let n := orDefault 10 maxGoals in
    let matrix := calculateScoreMatrix lambdaHome lambdaAway maxGoals rho in
    length matrix = Z.to_nat (n + 1)
    /\ Forall (fun row => length row = Z.to_nat (n + 1)) matrix
    /\ (n < 0 -> matrix = []).
Proof.
  intros N num lambdaHome lambdaAway maxGoals rho n matrix.
  split; [apply calculateScoreMatrix_length|]. split.
  - unfold matrix, calculateScoreMatrix. cbv zeta. apply forCells_rows.
  - intros Hn. unfold matrix, calculateScoreMatrix. cbv zeta. fold n.
    unfold forCells at 1. now rewrite (upto_empty 0 n) by lia.
Qed.

(** X5.  The correction factor is symmetric in the two goal counts and is 1
    outside the four scorelines with both counts in {0, 1}. *)
Theorem dixonColesTau_table :
  forall (N : Type) (num : JsNumber N) (home away : Z) (rho : N),
    dixonColesTau home away rho = dixonColesTau away home rho
    /\ (home < 0 \/ 1 < home \/ away < 0 \/ 1 < away ->
        dixonColesTau home away rho = ofZ 1).
Proof.
  intros N num home away rho. split; [apply dixonColesTau_sym|].
  intros H. unfold dixonColesTau.
  destruct (Z.eqb_spec home 0), (Z.eqb_spec home 1),
    (Z.eqb_spec away 0), (Z.eqb_spec away 1); subst; try lia; reflexivity.
Qed.

Lemma dixonColesTau_table_witness :
  dixonColesTau (num := Exact) 2 0 (1 / 2)%R = 1%R.
Proof.
  apply (dixonColesTau_table R Exact 2 0 (1 / 2)%R). lia.
Defined.

(** ** More of the engine on binary64 numbers *)

Section Binary64Edges.

Variables log exp : float -> float.

Local Open Scope float_scope.

Lemma add_nan_l (y : float) : nan + y = nan.
Proof.
  apply FloatAxioms.Prim2SF_inj. rewrite FloatAxioms.add_spec. change (Prim2SF nan) with S754_nan.
  destruct (Prim2SF y); reflexivity.
Qed.

Lemma add_nan_r (x : float) : x + nan = nan.
Proof.
  apply FloatAxioms.Prim2SF_inj. rewrite FloatAxioms.add_spec. change (Prim2SF nan) with S754_nan.
  destruct (Prim2SF x); reflexivity.
Qed.

Lemma sub_nan_l (y : float) : nan - y = nan.
Proof.
  apply FloatAxioms.Prim2SF_inj. rewrite FloatAxioms.sub_spec. change (Prim2SF nan) with S754_nan.
  destruct (Prim2SF y); reflexivity.
Qed.

Lemma sub_nan_r (x : float) : x - nan = nan.
Proof.
  apply FloatAxioms.Prim2SF_inj. rewrite FloatAxioms.sub_spec. change (Prim2SF nan) with S754_nan.
  destruct (Prim2SF x); reflexivity.
Qed.

Lemma mul_nan_l (y : float) : nan * y = nan.
Proof.
  apply FloatAxioms.Prim2SF_inj. rewrite FloatAxioms.mul_spec. change (Prim2SF nan) with S754_nan.
  destruct (Prim2SF y); reflexivity.
Qed.

Lemma mul_nan_r (x : float) : x * nan = nan.
Proof.
  apply FloatAxioms.Prim2SF_inj. rewrite FloatAxioms.mul_spec. change (Prim2SF nan) with S754_nan.
  destruct (Prim2SF x); reflexivity.
Qed.

Lemma div_nan_r (x : float) : x / nan = nan.
Proof.
  apply FloatAxioms.Prim2SF_inj. rewrite FloatAxioms.div_spec. change (Prim2SF nan) with S754_nan.
  destruct (Prim2SF x); reflexivity.
Qed.

Lemma ltb_nan_r (x : float) : (x <? nan) = false.
Proof.
  rewrite FloatAxioms.ltb_spec. change (Prim2SF nan) with S754_nan.
  destruct (Prim2SF x) as [s|s| |s m e]; try destruct s; reflexivity.
Qed.

Lemma sub_infinity_div_infinity (p : float) : (p - infinity) / infinity = nan.
Proof.
  apply FloatAxioms.Prim2SF_inj. rewrite FloatAxioms.div_spec, FloatAxioms.sub_spec.
  change (Prim2SF infinity) with (S754_infinity false).
  change (Prim2SF nan) with S754_nan.
  destruct (Prim2SF p) as [s|s| |s m e]; try destruct s; reflexivity.
Qed.

(** X11.  A third price of 0, -0 or NaN is falsy: it is left out, and the result
    is the one for the first two prices alone (in exact arithmetic, a third
    price of 0). *)
Theorem detectArbitrage_falsy_third_price :
  (forall odds1 odds2 : float,
      let two := detectArbitrage (num := Binary64 log exp) odds1 odds2 None in
      detectArbitrage (num := Binary64 log exp) odds1 odds2 (Some 0) = two
      /\ detectArbitrage (num := Binary64 log exp) odds1 odds2 (Some (-0)) = two
      /\ detectArbitrage (num := Binary64 log exp) odds1 odds2 (Some nan) = two)
  /\ (forall odds1 odds2 : R,
      detectArbitrage (num := Exact) odds1 odds2 (Some 0%R)
      = detectArbitrage (num := Exact) odds1 odds2 None).
Proof.
  split.
  - intros odds1 odds2. cbv zeta. repeat split.
  - intros odds1 odds2. unfold detectArbitrage. cbn [truthy Exact].
    destruct (Req_dec_T 0 0) as [_|C]; [reflexivity|now contradiction C].
Qed.

(** X12.  Degenerate inputs raise nothing.  A price of 0 has an infinite implied
    probability: the edge is NaN and no value is ever reported, whatever the
    probability and the margin.  A probability of 0 has infinite fair odds. *)
Theorem findValueBet_degenerate (trueProbability odds : float)
    (margin : option float) :
  let zeroOdds :=
    findValueBet (num := Binary64 log exp) trueProbability 0 margin in
  let zeroProbability :=
    findValueBet (num := Binary64 log exp) 0 odds margin in
  hasValue zeroOdds = false
  /\ edge zeroOdds = nan
  /\ fairOdds zeroProbability = infinity.
Proof.
  cbv zeta. unfold findValueBet. cbn [hasValue edge fairOdds].
  cbn [add sub mul div ltb ofZ Binary64 floatOfZ].
  change (PrimFloat.div (of_uint63 (Uint63.of_Z 1)) 0) with infinity.
  rewrite sub_infinity_div_infinity.
  split; [apply ltb_nan_r|]. split; [apply mul_nan_l|reflexivity].
Qed.

Lemma poissonProbability_bad_rate (lambda : float) (k : Z) :
  EcmaSpecialValues log exp -> (0 <= k)%Z ->
  lambda = nan \/ (lambda = 0 /\ k = 0%Z) ->
  poissonProbability (num := Binary64 log exp) lambda k = nan.
Proof.
  intros H Hk Hbad. unfold poissonProbability.
  destruct (Z.ltb_spec k 0); [lia|]. cbv zeta.
  cbn [add sub mul Math_log Math_exp ofZ Binary64].
  destruct Hbad as [->|[-> ->]].
  - replace (log nan) with nan by (symmetry; apply (log_nan _ _ H)).
    rewrite mul_nan_r, !sub_nan_l. apply (exp_nan _ _ H).
  - replace (log 0) with neg_infinity by (symmetry; apply (log_zero _ _ H)).
    change (floatOfZ 0 * neg_infinity) with nan.
    rewrite !sub_nan_l. apply (exp_nan _ _ H).
Qed.

Lemma reduceSum_nan_from (xs : list float) :
  fold_left (fun sum prob => sum + prob) xs nan = nan.
Proof.
  induction xs as [|x xs IH]; [reflexivity|]. cbn [fold_left].
  now rewrite add_nan_l.
Qed.

Lemma reduceSum_nan (xs : list float) :
  In nan xs -> reduceSum (num := Binary64 log exp) xs = nan.
Proof.
  unfold reduceSum. cbn [add ofZ Binary64]. generalize (floatOfZ 0) as acc.
  induction xs as [|x xs IH]; intros acc Hin; [contradiction|].
  cbn [fold_left]. destruct Hin as [->|Hin].
  - rewrite add_nan_r. apply reduceSum_nan_from.
  - now apply IH.
Qed.

(** One NaN weight turns every cell into NaN, through the total. *)
Lemma calculateScoreMatrix_nan (lambdaHome lambdaAway : float) (n : Z)
    (rho : float) :
  (0 <= n)%Z ->
  weight (num := Binary64 log exp) lambdaHome lambdaAway rho 0 0 = nan ->
  calculateScoreMatrix (num := Binary64 log exp) lambdaHome lambdaAway
    (Some n) (Some rho)
  = forCells n (fun _ _ => nan).
Proof.
  intros Hn Hw. rewrite calculateScoreMatrix_cells. cbv zeta.
  rewrite reduceSum_nan.
  - apply forCells_ext. intros h a _ _. cbn [div Binary64]. apply div_nan_r.
  - apply in_map_iff. exists (0, 0)%Z. split; [exact Hw|].
    apply cellsOf_In. lia.
Qed.

Lemma weight_bad_rate (lambdaHome lambdaAway rho : float) :
  EcmaSpecialValues log exp ->
  lambdaHome = 0 \/ lambdaHome = nan \/ lambdaAway = 0 \/ lambdaAway = nan ->
  weight (num := Binary64 log exp) lambdaHome lambdaAway rho 0 0 = nan.
Proof.
  intros H Hbad. unfold weight. cbn [mul Binary64].
  destruct Hbad as [E|[E|[E|E]]].
  - rewrite (poissonProbability_bad_rate lambdaHome 0 H) by (lia || tauto).
    now rewrite !mul_nan_l.
  - rewrite (poissonProbability_bad_rate lambdaHome 0 H) by (lia || tauto).
    now rewrite !mul_nan_l.
  - rewrite (poissonProbability_bad_rate lambdaAway 0 H) by (lia || tauto).
    now rewrite mul_nan_r, mul_nan_l.
  - rewrite (poissonProbability_bad_rate lambdaAway 0 H) by (lia || tauto).
    now rewrite mul_nan_r, mul_nan_l.
Qed.

(** X13.  A rate of 0 or NaN on either side makes every cell of the score matrix
    NaN, for every bound and correlation parameter: the rates are not
    validated, and the NaN of the (0,0) Poisson term spreads through the
    normalizing total. *)
Theorem calculateScoreMatrix_bad_rate (lambdaHome lambdaAway : float)
    (maxGoals : option Z) (rho : option float) :
  EcmaSpecialValues log exp ->
  (0 <= orDefault 10 maxGoals)%Z ->
  lambdaHome = 0 \/ lambdaHome = nan \/ lambdaAway = 0 \/ lambdaAway = nan ->
  calculateScoreMatrix (num := Binary64 log exp) lambdaHome lambdaAway
    maxGoals rho
  = forCells (orDefault 10%Z maxGoals) (fun _ _ => nan).
Proof.
  intros H Hn Hbad.
  change (calculateScoreMatrix lambdaHome lambdaAway maxGoals rho)
    with (calculateScoreMatrix (num := Binary64 log exp) lambdaHome lambdaAway
            (Some (orDefault 10%Z maxGoals))
            (Some (orDefault
                     (@neg float (Binary64 log exp)
                        (decimal (num := Binary64 log exp) 13 2)) rho))).
  apply calculateScoreMatrix_nan; [exact Hn|]. now apply weight_bad_rate.
Qed.

(** X14.  Then every probability of the prediction is NaN. *)
Theorem predictMatch_bad_rate (lambdaHome lambdaAway : float) :
  EcmaSpecialValues log exp ->
  lambdaHome = 0 \/ lambdaHome = nan \/ lambdaAway = 0 \/ lambdaAway = nan ->
  let p := predictMatch (num := Binary64 log exp) lambdaHome lambdaAway in
  probHome p = nan /\ probDraw p = nan /\ probAway p = nan
  /\ prob0_0 p = nan /\ probOver2_5 p = nan /\ probBTTS p = nan.
Proof.
  intros H Hbad. cbv zeta. unfold predictMatch. cbv zeta.
  rewrite calculateScoreMatrix_defaults.
  rewrite calculateScoreMatrix_nan by (lia || now apply weight_bad_rate).
  cbn [probHome probDraw probAway prob0_0 probOver2_5 probBTTS].
  repeat split; vm_compute; reflexivity.
Qed.

End Binary64Edges.

Lemma calculateScoreMatrix_bad_rate_witness :
  calculateScoreMatrix (num := Binary64 logStandIn expStandIn) 0%float 1.2%float
    (Some 1) None
  = [[PrimFloat.nan; PrimFloat.nan]; [PrimFloat.nan; PrimFloat.nan]].
Proof.
  apply (calculateScoreMatrix_bad_rate logStandIn expStandIn 0%float 1.2%float
           (Some 1) None).
  - constructor; vm_compute; reflexivity.
  - cbn [orDefault]. lia.
  - left. reflexivity.
Defined.

Lemma predictMatch_bad_rate_witness :
  probHome (predictMatch (num := Binary64 logStandIn expStandIn) 1.5%float 0%float)
  = PrimFloat.nan.
Proof.
  apply (predictMatch_bad_rate logStandIn expStandIn 1.5%float 0%float).
  - constructor; vm_compute; reflexivity.
  - right. right. left. reflexivity.
Defined.

(** ** The prediction job *)

Section PredictionJobProperties.

Context {N : Type} {num : JsNumber N}.
Variable parseFloat : string -> N.
Variable toFixed : N -> nat -> string.

Abbreviation predictionFor := (predictionFor parseFloat toFixed).
Abbreviation generatePredictions := (generatePredictions parseFloat toFixed).
Abbreviation insertedRows := (insertedRows parseFloat toFixed).

Lemma loop_appends (teams : list TeamRow) (ms : list MatchRow)
    (table : list PredictionRow) :
  fold_left
    (fun predictions m =>
       match predictionFor teams m with
       | Some row => predictions ++ [row]
       | None => predictions
       end) ms table
  = table ++ insertedRows teams ms.
Proof.
  revert table. induction ms as [|m ms IH]; intros table; cbn [fold_left insertedRows].
  - now rewrite app_nil_r.
  - destruct (predictionFor teams m) as [row|]; rewrite IH; [|reflexivity].
    now rewrite <- app_assoc.
Qed.

Lemma hasId_In (ids : list (option Z)) (id : Z) :
  hasId ids id = true <-> In (Some id) ids.
Proof.
  unfold hasId. rewrite existsb_exists. split.
  - intros ([i|] & Hin & E); [|discriminate].
    apply Z.eqb_eq in E. now subst.
  - intros Hin. exists (Some id). split; [exact Hin|apply Z.eqb_refl].
Qed.

Lemma selectTeam_found (teams : list TeamRow) (id : Z) :
  nth_error (selectTeam teams id) 0 <> None
  <-> existsb (fun t => teamId t =? id) teams = true.
Proof.
  unfold selectTeam. rewrite existsb_exists.
  destruct (filter (fun t => teamId t =? id) teams) as [|t l] eqn:E; cbn.
  - split; [congruence|]. intros (t & Hin & Ht).
    assert (In t (filter (fun t => teamId t =? id) teams))
      by (apply filter_In; tauto).
    rewrite E in H. contradiction.
  - split; [|congruence]. intros _.
    assert (Hin : In t (filter (fun t => teamId t =? id) teams))
      by (rewrite E; now left).
    apply filter_In in Hin. now exists t.
Qed.

(** An iteration inserts a row exactly when both team references resolve,
    and the row carries the id of the match. *)
Lemma predictionFor_spec (teams : list TeamRow) (m : MatchRow) :
  (predictionFor teams m <> None
   <-> hasTeam teams (homeTeamId m) = true /\ hasTeam teams (awayTeamId m) = true)
  /\ (forall row, predictionFor teams m = Some row ->
                  pred_matchId row = Some (matchId m)).
Proof.
  unfold predictionFor, hasTeam.
  destruct (homeTeamId m) as [hid|], (awayTeamId m) as [aid|]; cbn [truthyId negb orb].
  - pose proof (selectTeam_found teams hid) as Hh.
    pose proof (selectTeam_found teams aid) as Ha.
    destruct (hid =? 0)%Z, (aid =? 0)%Z; cbn [negb orb andb].
    1-3: split; [split; [intros C; now contradiction C|intros [? ?]; discriminate]
                |discriminate].
    destruct (nth_error (selectTeam teams hid) 0) as [home|],
      (nth_error (selectTeam teams aid) 0) as [away|].
    + set (p := fixturePrediction parseFloat home away). clearbody p. cbv zeta.
      split; [|intros row E; injection E as <-; reflexivity].
      split; [intros _|intros _; discriminate].
      split; [apply Hh|apply Ha]; discriminate.
    + split; [|discriminate]. split; [intros C; now contradiction C|].
      intros [_ E]. apply Ha in E. now contradiction E.
    + split; [|discriminate]. split; [intros C; now contradiction C|].
      intros [E _]. apply Hh in E. now contradiction E.
    + split; [|discriminate]. split; [intros C; now contradiction C|].
      intros [E _]. apply Hh in E. now contradiction E.
  - destruct (hid =? 0)%Z; cbn [negb orb];
      (split; [split; [intros C; now contradiction C|intros [? ?]; discriminate]
              |discriminate]).
  - split; [split; [intros C; now contradiction C|intros [? ?]; discriminate]
           |discriminate].
  - split; [split; [intros C; now contradiction C|intros [? ?]; discriminate]
           |discriminate].
Qed.

Lemma insertedRows_In (teams : list TeamRow) (ms : list MatchRow)
    (row : PredictionRow) :
  In row (insertedRows teams ms)
  <-> exists m, In m ms /\ predictionFor teams m = Some row.
Proof.
  induction ms as [|m ms IH]; cbn [insertedRows].
  - split; [contradiction|]. intros (m & [] & _).
  - destruct (predictionFor teams m) as [r|] eqn:E.
    + cbn [In]. rewrite IH. split.
      * intros [<-|(m' & Hin & Hm')]; [exists m|exists m']; cbn [In]; tauto.
      * intros (m' & [<-|Hin] & Hm'); [left; congruence|right; now exists m'].
    + rewrite IH. split.
      * intros (m' & Hin & Hm'). exists m'. cbn [In]. tauto.
      * intros (m' & [<-|Hin] & Hm'); [congruence|now exists m'].
Qed.

Lemma insertedRows_ids (teams : list TeamRow) (ms : list MatchRow) :
  map pred_matchId (insertedRows teams ms)
  = map (fun m => Some (matchId m))
      (filter (fun m => hasTeam teams (homeTeamId m)
                        && hasTeam teams (awayTeamId m)) ms).
Proof.
  induction ms as [|m ms IH]; [reflexivity|]. cbn [insertedRows filter].
  destruct (predictionFor_spec teams m) as [Hiff Hid].
  destruct (predictionFor teams m) as [row|].
  - assert (H : hasTeam teams (homeTeamId m) = true
                /\ hasTeam teams (awayTeamId m) = true)
      by (apply Hiff; discriminate).
    destruct H as [-> ->]. cbn [andb map]. now rewrite IH, (Hid row eq_refl).
  - destruct (hasTeam teams (homeTeamId m)) eqn:Eh,
      (hasTeam teams (awayTeamId m)) eqn:Ea; cbn [andb]; try exact IH.
    exfalso. now apply (proj2 Hiff).
Qed.

Lemma generatePredictions_eq (allMatches : list MatchRow)
    (teams : list TeamRow) (existing : list PredictionRow) :
  generatePredictions allMatches teams existing
  = existing
    ++ insertedRows teams
         (filter (fun m => negb (hasId (map pred_matchId existing) (matchId m)))
            allMatches).
Proof. unfold generatePredictions. cbv zeta. apply loop_appends. Qed.

(** X15.  A run never removes or changes a stored prediction: the table it
    leaves starts with the old one.  Every row it adds is for a match of the
    [matches] table that had no prediction and whose two team references
    resolve in [teams]. *)
Theorem generatePredictions_only_adds (allMatches : list MatchRow)
    (teams : list TeamRow) (existing : list PredictionRow) :
  exists added,
    generatePredictions allMatches teams existing = existing ++ added
    /\ forall row, In row added ->
         exists m, In m allMatches
                   /\ pred_matchId row = Some (matchId m)
                   /\ ~ In (Some (matchId m)) (map pred_matchId existing)
                   /\ hasTeam teams (homeTeamId m) = true
                   /\ hasTeam teams (awayTeamId m) = true.
Proof.
  eexists. split; [apply generatePredictions_eq|].
  intros row Hrow. apply insertedRows_In in Hrow.
  destruct Hrow as (m & Hm & Hrow). apply filter_In in Hm.
  destruct Hm as [Hin Hnew]. exists m.
  destruct (predictionFor_spec teams m) as [Hiff Hid].
  split; [exact Hin|]. split; [now apply Hid|]. split.
  - intros C. apply hasId_In in C. rewrite C in Hnew. discriminate.
  - apply Hiff. congruence.
Qed.

(** The match ids of the table after a run: the old ones, then those of the
    unpredicted matches whose team references resolve. *)
Lemma generated_ids (allMatches : list MatchRow) (teams : list TeamRow)
    (existing : list PredictionRow) :
  map pred_matchId (generatePredictions allMatches teams existing)
  = map pred_matchId existing
    ++ map (fun m => Some (matchId m))
         (filter (fun m => hasTeam teams (homeTeamId m)
                           && hasTeam teams (awayTeamId m))
            (filter (fun m => negb (hasId (map pred_matchId existing) (matchId m)))
               allMatches)).
Proof. now rewrite generatePredictions_eq, map_app, insertedRows_ids. Qed.


(** X17.  Running the job again on its own result inserts nothing. *)
Theorem generatePredictions_idempotent (allMatches : list MatchRow)
    (teams : list TeamRow) (existing : list PredictionRow) :
  generatePredictions allMatches teams
    (generatePredictions allMatches teams existing)
  = generatePredictions allMatches teams existing.
Proof.
  rewrite (generatePredictions_eq allMatches teams
             (generatePredictions allMatches teams existing)).
  match goal with |- ?t ++ ?added = ?t => assert (E : added = []) end.
  - destruct (insertedRows teams _) as [|row rest] eqn:E; [reflexivity|].
    exfalso.
    assert (Hrow : In row (row :: rest)) by now left.
    rewrite <- E in Hrow. apply insertedRows_In in Hrow.
    destruct Hrow as (m & Hm & Hrow). apply filter_In in Hm.
    destruct Hm as [Hin Hnew].
    destruct (predictionFor_spec teams m) as [Hiff _].
    assert (Ht : hasTeam teams (homeTeamId m) = true
                 /\ hasTeam teams (awayTeamId m) = true)
      by (apply Hiff; congruence).
    assert (C : In (Some (matchId m))
                  (map pred_matchId (generatePredictions allMatches teams existing))).
    { rewrite generated_ids, in_app_iff.
      destruct (hasId (map pred_matchId existing) (matchId m)) eqn:Eold.
      - left. now apply hasId_In.
      - right. apply in_map_iff. exists m. split; [reflexivity|].
        apply filter_In. split.
        + apply filter_In. split; [exact Hin|]. now rewrite Eold.
        + destruct Ht as [-> ->]. reflexivity. }
    apply hasId_In in C. rewrite C in Hnew. discriminate.
  - rewrite E. apply app_nil_r.
Qed.

Lemma distinct_ids_filter (keep : MatchRow -> bool) (ms : list MatchRow) :
  NoDup (map matchId ms) -> NoDup (map matchId (filter keep ms)).
Proof.
  induction ms as [|m ms IH]; cbn [map filter]; intros Hms; [exact Hms|].
  apply NoDup_cons_iff in Hms. destruct Hms as [Hm Hms].
  destruct (keep m); [|now apply IH].
  cbn [map]. apply NoDup_cons; [|now apply IH].
  intros C. apply Hm. apply in_map_iff in C. destruct C as (m' & E & Hm').
  apply filter_In in Hm'. apply in_map_iff. exists m'. tauto.
Qed.

Lemma NoDup_map_Some {A : Type} (l : list A) : NoDup l -> NoDup (map Some l).
Proof.
  induction 1 as [|x l Hx _ IH]; cbn [map]; constructor; [|exact IH].
  intros C. apply in_map_iff in C. destruct C as (y & [= ->] & Hy). contradiction.
Qed.

(** X18.  One prediction per match stays one prediction per match: when the
    matches have distinct ids and no two stored predictions share a match
    id, no two predictions do after the run. *)
Theorem generatePredictions_no_duplicates (allMatches : list MatchRow)
    (teams : list TeamRow) (existing : list PredictionRow) :
  NoDup (map matchId allMatches) ->
  NoDup (map pred_matchId existing) ->
  NoDup (map pred_matchId (generatePredictions allMatches teams existing)).
Proof.
  intros Hms Hex. rewrite generated_ids. apply NoDup_app.
  - exact Hex.
  - rewrite <- (map_map matchId Some). apply NoDup_map_Some.
    now do 2 apply distinct_ids_filter.
  - intros id Hold Hnew. apply in_map_iff in Hnew.
    destruct Hnew as (m & <- & Hm). apply filter_In in Hm.
    destruct Hm as [Hm _]. apply filter_In in Hm. destruct Hm as [_ Hm].
    apply hasId_In in Hold. rewrite Hold in Hm. discriminate.
Qed.

End PredictionJobProperties.

Section JobExamples.

Local Open Scope string_scope.

Let exampleTeams : list TeamRow :=
  [ {| teamId := 1; attackStrength := Some "1.200"; defenseStrength := None |};
    {| teamId := 2; attackStrength := None; defenseStrength := Some "0.900" |} ].

Let exampleMatches : list MatchRow :=
  [ {| matchId := 7; homeTeamId := Some 1; awayTeamId := Some 2 |};
    {| matchId := 8; homeTeamId := Some 1; awayTeamId := None |} ].


Lemma generatePredictions_no_duplicates_witness :
  NoDup
    (map pred_matchId
       (generatePredictions (num := Exact) (fun _ => 1%R) (fun _ _ => "")
          exampleMatches exampleTeams [])).
Proof.
  apply (generatePredictions_no_duplicates (num := Exact) (fun _ => 1%R)
           (fun _ _ => "") exampleMatches exampleTeams []).
  - cbn [map exampleMatches matchId].
    repeat constructor; cbn [In]; intros C; repeat destruct C as [C|C];
      discriminate || contradiction.
  - constructor.
Defined.

End JobExamples.

Section ExactFixture.

#[local] Existing Instance Exact.
Local Open Scope R_scope.

Variable parseFloat : string -> R.



End ExactFixture.

